(** * Bayesian belief network notebook (02_Bayesian_belief_nets.ipynb)

    A shallow embedding of the notebook's own computations: the
    declaration of the disease / blood-pressure network inside a
    [with Model() as bayesnet:] block, the [observed=] evidence, and the
    summary arithmetic performed on the columns of a trace. *)

From Stdlib Require Import QArith Qreals Reals Lra Lia.
From Stdlib Require Lqa.
From stdpp Require Import gmap strings list fin_maps.

Local Open Scope string_scope.
Local Open Scope list_scope.

(** ** Expressions

    The parameters handed to the distributions are either numeric
    literals or small symbolic expressions over the value of a parent
    ([switch(g1_healthy > 0.5, 0.9, 0.1)]); [10**.5] is the one use of
    exponentiation.  Literals are kept as the rationals they denote. *)

Inductive expr : Type :=
| Lit (q : Q)
| RV (name : string)
| Gt (a b : expr)
| Switch (c a b : expr)
| Pow (a b : expr).

Definition assignment := string -> Q.

(** Comparisons of numbers, as booleans. *)
Definition Qgt_bool (x y : Q) : bool := negb (Qle_bool x y).
Definition Qlt_bool (x y : Q) : bool := negb (Qle_bool y x).

(** Rational evaluation; exponentiation has no rational value in general
    and is left to the real-valued denotation below. *)
Fixpoint eval (env : assignment) (e : expr) : option Q :=
  match e with
  | Lit q => Some q
  | RV x => Some (env x)
  | Gt a b =>
      match eval env a, eval env b with
      | Some u, Some v => Some (if Qgt_bool u v then 1%Q else 0%Q)
      | _, _ => None
      end
  | Switch c a b =>
      match eval env c, eval env a, eval env b with
      | Some t, Some u, Some v => Some (if Qeq_bool t 0 then v else u)
      | _, _, _ => None
      end
  | Pow _ _ => None
  end.

Fixpoint denote (env : assignment) (e : expr) : R :=
  match e with
  | Lit q => Q2R q
  | RV x => Q2R (env x)
  | Gt a b => if Rlt_dec (denote env b) (denote env a) then 1%R else 0%R
  | Switch c a b =>
      if Req_dec_T (denote env c) 0%R then denote env b else denote env a
  | Pow a b => Rpower (denote env a) (denote env b)
  end.

(** ** Random variables and the model under construction *)

Inductive distribution : Type :=
| BernoulliDist (p : expr)
| NormalDist (mu sd : expr).

(** What the notebook passes as [observed=]: a number ([50]) or a list of
    numbers ([data_1], [data_2]). *)
Inductive data : Type :=
| Scalar (q : Q)
| Sequence (qs : list Q).

Record rv : Type := mk_rv {
  rv_name : string;
  rv_dist : distribution;
  rv_observed : option data
}.

(** The model is the list of variables in declaration order. *)
Abbreviation Model := (list rv).

(** Declarations run inside [with Model() as ...:]; each constructor
    call registers its variable with the model of the enclosing block
    and hands back the variable for use in later expressions. *)
Definition decl (A : Type) : Type := Model -> A * Model.

Definition ret {A} (a : A) : decl A := fun m => (a, m).
Definition bind {A B} (c : decl A) (k : A -> decl B) : decl B :=
  fun m => let (a, m') := c m in k a m'.

Notation "'let*' x := c 'in' k" := (bind c (fun x => k))
  (at level 10, x name, c at level 100, k at level 200).

Definition register (name : string) (d : distribution) (observed : option data)
  : decl expr :=
  fun m => (RV name, m ++ [mk_rv name d observed]).

Definition Bernoulli (name : string) (p : expr) (observed : option data) : decl expr :=
  register name (BernoulliDist p) observed.

Definition Normal (name : string) (mu sd : expr) (observed : option data) : decl expr :=
  register name (NormalDist mu sd) observed.

Definition switch (c a b : expr) : expr := Switch c a b.

(** [with Model() as m: body] *)
Definition with_Model {A} (body : decl A) : Model := snd (body []).

(** ** Evidence

    Evidence reaches a variable only through the [observed=] keyword of
    its own declaration, so it is one optional argument per variable. *)
Record Evidence : Type := mk_evidence {
  obs_g1 : option data;
  obs_g2 : option data;
  obs_g3 : option data;
  obs_x1 : option data;
  obs_x2 : option data;
  obs_x3 : option data
}.

Definition no_evidence : Evidence := mk_evidence None None None None None None.

Definition evidence_for (ev : Evidence) (name : string) : option data :=
  if decide (name = "g1") then obs_g1 ev
  else if decide (name = "g2") then obs_g2 ev
  else if decide (name = "g3") then obs_g3 ev
  else if decide (name = "x1") then obs_x1 ev
  else if decide (name = "x2") then obs_x2 ev
  else if decide (name = "x3") then obs_x3 ev
  else None.

(** ** The network

    The four model cells of the notebook are this block with different
    [observed=] arguments. *)
Definition bayesnet (ev : Evidence) : Model :=
  with_Model (
    (* Parent *)
    let* g1_healthy := Bernoulli "g1" (Lit 0.5) (obs_g1 ev) in
    (* Latent variable that conditions the children *)
    let g1_L := switch (Gt g1_healthy (Lit 0.5)) (Lit 0.9) (Lit 0.1) in
    (* Left Child *)
    let* g2_healthy := Bernoulli "g2" g1_L (obs_g2 ev) in
    (* Right Child *)
    let* g3_healthy := Bernoulli "g3" g1_L (obs_g3 ev) in
    (* Conditional switches for blood pressure mean *)
    let rate1 := switch (Gt g1_healthy (Lit 0.5)) (Lit 50) (Lit 60) in
    let rate2 := switch (Gt g2_healthy (Lit 0.5)) (Lit 50) (Lit 60) in
    let rate3 := switch (Gt g3_healthy (Lit 0.5)) (Lit 50) (Lit 60) in
    (* Parent and children *)
    let* x1 := Normal "x1" rate1 (Pow (Lit 10) (Lit 0.5)) (obs_x1 ev) in
    let* x2 := Normal "x2" rate2 (Pow (Lit 10) (Lit 0.5)) (obs_x2 ev) in
    let* x3 := Normal "x3" rate3 (Pow (Lit 10) (Lit 0.5)) (obs_x3 ev) in
    ret tt).

(** The evidence of the notebook's cells. *)
Definition data_1 : list Q := [38; 58; 62; 55; 80; 40; 51; 52]%Q.
Definition data_2 : list Q := [32; 110; 72; 43; 66; 55; 59; 52]%Q.

Definition exercise1_evidence : Evidence :=
  mk_evidence None None None None (Some (Scalar 50)) None.
Definition data_evidence : Evidence :=
  mk_evidence None None None None (Some (Sequence data_2)) (Some (Sequence data_1)).

Definition lookup_rv (m : Model) (name : string) : option rv :=
  find (fun v => bool_decide (rv_name v = name)) m.

Definition names (m : Model) : list string := rv_name <$> m.

Definition dist_of (m : Model) (name : string) : option distribution :=
  rv_dist <$> lookup_rv m name.

Definition observed_of (m : Model) (name : string) : option (option data) :=
  rv_observed <$> lookup_rv m name.

(** A boolean node counts as healthy when its value passes the test the
    switches make, [g > 0.5]; for the outcomes 1 and 0 of a Bernoulli
    variable that is outcome 1. *)
Definition healthy (env : assignment) (g : string) : bool := Qgt_bool (env g) 0.5.

(** pymc3's split of a model's variables into free and observed ones. *)
Definition free_RVs (m : Model) : list rv :=
  filter (fun v => rv_observed v = None) m.
Definition observed_RVs (m : Model) : list rv :=
  filter (fun v => rv_observed v <> None) m.

(** The variables an expression mentions. *)
Fixpoint parents (e : expr) : list string :=
  match e with
  | Lit _ => []
  | RV x => [x]
  | Gt a b => parents a ++ parents b
  | Switch c a b => parents c ++ parents a ++ parents b
  | Pow a b => parents a ++ parents b
  end.

Definition dist_parents (d : distribution) : list string :=
  match d with
  | BernoulliDist p => parents p
  | NormalDist mu sd => parents mu ++ parents sd
  end.

(** ** Errors

    The notebook itself raises nothing; these are the error signals the
    surrounding contracts speak of, and the [TypeError] with which the
    library refuses a declaration. *)
Inductive error : Type :=
| InvalidEvidence
| SamplingDivergence
| TypeError.

Definition result (A : Type) : Type := (error + A)%type.

(** A variable observed as a list of numbers. *)
Definition observed_as_list (m : Model) (name : string) : bool :=
  match observed_of m name with
  | Some (Some (Sequence _)) => true
  | _ => false
  end.

(** A check the library's constructors make when a variable is
    declared: a variable that is not observed is a single number, so its
    parameters must be single numbers too; one that takes its shape from
    a parent observed as a list is refused with a [TypeError].  The value
    of an observation is not looked at.  Further refusals of the library
    (lists of different lengths on a boolean node and on its blood
    pressure) are left out; nothing below is stated where they apply. *)
Definition declarable (m : Model) (v : rv) : bool :=
  match rv_observed v with
  | Some _ => true
  | None => forallb (fun p => negb (observed_as_list m p)) (dist_parents (rv_dist v))
  end.

(** Building a graph from evidence: the model block, run as it is.  The
    [observed=] value is stored with the variable as given; the block
    ends in the library's error when a declaration is refused. *)
Definition build (ev : Evidence) : result Model :=
  if forallb (declarable (bayesnet ev)) (bayesnet ev)
  then inr (bayesnet ev)
  else inl TypeError.

(** Evidence that gives the boolean nodes single numbers only. *)
Definition is_single_number (o : option data) : bool :=
  match o with
  | Some (Sequence _) => false
  | _ => true
  end.

Definition single_numbers_on_boolean_nodes (ev : Evidence) : bool :=
  is_single_number (obs_g1 ev) && is_single_number (obs_g2 ev)
  && is_single_number (obs_g3 ev).

(** The domain an evidence value is expected to lie in: boolean-compatible
    numbers for a two-outcome variable, any number or list of numbers
    for a continuous one. *)
Definition boolean_compatible (q : Q) : bool := Qeq_bool q 0 || Qeq_bool q 1.

Definition in_domain (d : distribution) (o : data) : bool :=
  match d, o with
  | BernoulliDist _, Scalar q => boolean_compatible q
  | BernoulliDist _, Sequence qs => forallb boolean_compatible qs
  | NormalDist _ _, _ => true
  end.

Definition valid_observation (v : rv) : bool :=
  match rv_observed v with
  | Some o => in_domain (rv_dist v) o
  | None => true
  end.

Definition valid_evidence (ev : Evidence) : bool :=
  forallb valid_observation (bayesnet ev).

(** The two-outcome root observed at 7. *)
Definition out_of_domain_evidence : Evidence :=
  mk_evidence (Some (Scalar 7)) None None None None None.

(** The root observed as a list, its children left free. *)
Definition list_on_root_evidence : Evidence :=
  mk_evidence (Some (Sequence [0; 1; 1]%Q)) None None None None None.

(** ** Traces

    A trace is indexed by variable name, [mytrace['g1']]; every column
    holds one number per kept draw (0 or 1 for a Bernoulli variable). *)
Abbreviation Trace := (gmap string (list Q)).

(** *** Summary arithmetic of the notebook *)

(** [sum(xs)]; under [%pylab inline] this is numpy's sum. *)
Definition np_sum (xs : list Q) : Q := fold_left Qplus xs 0%Q.

(** [a / len(xs)]: there is no number when the column is empty. *)
Definition true_divide (a : Q) (n : nat) : option Q :=
  match n with
  | O => None
  | S _ => Some (a / inject_Z (Z.of_nat n))%Q
  end.

(** [sum(mytrace[var])/len(mytrace[var])] *)
Definition p_healthy (mytrace : Trace) (var : string) : option Q :=
  xs ← mytrace !! var; true_divide (np_sum xs) (length xs).

(** [p_g1_healthy = sum(mytrace['g1'])/len(mytrace['g1'])] *)
Definition p_g1_healthy (mytrace : Trace) : option Q := p_healthy mytrace "g1".

(** [p_g1_not_healthy = 1 - p_g1_healthy] *)
Definition p_g1_not_healthy (mytrace : Trace) : option Q :=
  p ← p_g1_healthy mytrace; Some (1 - p)%Q.

(** The count the quotient is meant to be: samples equal to the "true"
    outcome 1. *)
Definition count_true (xs : list Q) : nat :=
  length (filter (fun x => Qeq_bool x 1 = true) xs).

(** A column of a two-outcome variable holds only 0 and 1. *)
Definition is_bernoulli_column (xs : list Q) : bool :=
  forallb boolean_compatible xs.

(** Comparison of a column against a number, elementwise:
    [mytrace['x2']>51] and [mytrace['x2']<50]. *)
Definition n1 (x2 : list Q) : list bool := map (fun x => Qgt_bool x 51) x2.
Definition n2 (x2 : list Q) : list bool := map (fun x => Qlt_bool x 50) x2.

(** [sum] of a boolean column counts its [True] entries. *)
Definition sum_bool (bs : list bool) : Z :=
  fold_left (fun acc (b : bool) => (acc + Z.b2z b)%Z) bs 0%Z.

(** [(len(mytrace['x2']) - sum(n1) - sum(n2))/len(mytrace['x2'])] *)
Definition interval_estimate (mytrace : Trace) : option Q :=
  x2 ← mytrace !! "x2";
  true_divide
    (inject_Z (Z.of_nat (length x2) - sum_bool (n1 x2) - sum_bool (n2 x2)))
    (length x2).

(** The fraction of samples with 50 <= x <= 51, counted directly. *)
Definition between_50_51 (x : Q) : bool := Qle_bool 50 x && Qle_bool x 51.

Definition fraction_between (mytrace : Trace) : option Q :=
  x2 ← mytrace !! "x2";
  true_divide
    (inject_Z (Z.of_nat (length (filter (fun x => between_50_51 x = true) x2))))
    (length x2).

(** *** Monte Carlo standard error *)

Definition Rsum (xs : list R) : R := fold_right Rplus 0%R xs.

Definition Rmean (xs : list R) : R := (Rsum xs / INR (length xs))%R.

(** Sample standard deviation (divisor n - 1); it has no value for
    fewer than two samples. *)
Definition sample_std (xs : list R) : option R :=
  if decide (2 <= length xs)%nat
  then Some (sqrt (Rsum (map (fun x => (x - Rmean xs) * (x - Rmean xs))%R xs)
                   / (INR (length xs) - 1)))%R
  else None.

(** Modelled from the spec: the Monte Carlo standard error that
    [pm.summary] reports as [mcse_mean] is computed by the library, not by
    the notebook.  It is taken as the spec words it, in its plain
    independent-sample form: the sample standard deviation divided by the
    square root of the number of samples, over the real numbers; where
    the deviation has no value, neither has the error. *)
Definition mc_std_error (xs : list Q) : option R :=
  s ← sample_std (Q2R <$> xs); Some (s / sqrt (INR (length xs)))%R.

(** Modelled from the spec: the contract
    [empirical_probability(trace, var) -> (mean, mc_std_error)].  The mean
    is the notebook's quotient [sum(mytrace[var])/len(mytrace[var])]; the
    error estimate is [mc_std_error], absent where it has no value. *)
Definition empirical_probability (mytrace : Trace) (var : string)
  : option (Q * option R) :=
  xs ← mytrace !! var;
  p ← true_divide (np_sum xs) (length xs);
  Some (p, mc_std_error xs).

(** *** Kernel density estimate *)








(** ** Sampling

    [pm.sample] is pymc3's.  A sampler is taken as a chain: a starting
    assignment chosen from the seed, and a transition that either yields
    the next state or signals divergence. *)
Section Sampler.
Context {rng : Type}.
Variable init : Model -> rng -> assignment.
Variable kernel : Model -> rng * assignment -> option (rng * assignment).

(** [k] transitions from [st]: the state reached and the assignments
    passed through, oldest first. *)
Fixpoint run (m : Model) (k : nat) (st : rng * assignment)
  : result ((rng * assignment) * list assignment) :=
  match k with
  | O => inr (st, [])
  | S k' =>
      match kernel m st with
      | None => inl SamplingDivergence
      | Some st' =>
          match run m k' st' with
          | inl e => inl e
          | inr (fin, draws) => inr (fin, snd st' :: draws)
          end
      end
  end.

Definition column_of (draws : list assignment) (v : rv) : string * list Q :=
  (rv_name v, (fun a : assignment => a (rv_name v)) <$> draws).

(** One column per free variable. *)
Definition trace_of (m : Model) (draws : list assignment) : Trace :=
  list_to_map (column_of draws <$> free_RVs m).

(** Modelled from the spec: the contract
    [sample(graph, n_draws, n_warmup) -> Trace] of the call
    [pm.sample(n_draws, tune=n_warmup)].  The first [n_warmup]
    transitions are tuning and are discarded; the assignments reached by
    the next [n_draws] transitions are kept, one column per variable that
    is not observed.  Divergence of the chain is reported instead of a
    trace. *)
Definition sample (m : Model) (n_draws n_warmup : nat) (seed : rng)
  : result Trace :=
  match run m n_warmup (seed, init m seed) with
  | inl e => inl e
  | inr (tuned, _) =>
      match run m n_draws tuned with
      | inl e => inl e
      | inr (_, draws) => inr (trace_of m draws)
      end
  end.

(** Several chains: every chain is sampled on its own, from its own
    seed, and ends in its own trace. *)
Fixpoint sample_each (m : Model) (n_draws n_warmup : nat) (seeds : list rng)
  : result (list Trace) :=
  match seeds with
  | [] => inr []
  | seed :: rest =>
      match sample m n_draws n_warmup seed with
      | inl e => inl e
      | inr t =>
          match sample_each m n_draws n_warmup rest with
          | inl e => inl e
          | inr ts => inr (t :: ts)
          end
      end
  end.

(** The traces of the chains put together: a variable's column is the
    chains' columns one after the other ([mytrace[var]] of a trace with
    several chains). *)
Definition merge_chains (chains : list Trace) : Trace :=
  foldr (union_with (fun a b : list Q => Some (a ++ b))) ∅ chains.

(** Modelled from the spec: [pm.sample] as the notebook calls it runs
    several chains (at least two unless told otherwise); each chain is a
    [sample] of its own, and the traces are merged once all chains are
    complete.  One seed per chain. *)
Definition sample_chains (m : Model) (n_draws n_warmup : nat) (seeds : list rng)
  : result Trace :=
  match sample_each m n_draws n_warmup seeds with
  | inl e => inl e
  | inr chains => inr (merge_chains chains)
  end.
End Sampler.

(** A small deterministic chain used to exercise the definitions: the
    state counts the transitions, every variable takes the parity of the
    count, and the chain diverges when the count reaches [limit]. *)
Definition parity_init (m : Model) (seed : nat) : assignment := fun _ => 0%Q.

Definition parity_kernel (limit : nat) (m : Model) (st : nat * assignment)
  : option (nat * assignment) :=
  if decide (fst st = limit) then None
  else Some (S (fst st), fun _ => inject_Z (Z.of_nat (fst st mod 2))).

(** ** Rounding of the reported numbers

    The numbers the notebook prints are rounded first:
    [round(float(...), 5)] for the error band and [.round(4)*100] for the
    percentages.  Both round to the nearest multiple of a power of ten,
    a tie going to the even neighbour. *)

(** Nearest integer, ties to even. *)
Definition round_half_even (q : Q) : Z :=
  let n := Qnum q in
  let d := Z.pos (Qden q) in
  let f := (n / d)%Z in
  let r := (n mod d)%Z in
  if (2 * r <? d)%Z then f
  else if (d <? 2 * r)%Z then (f + 1)%Z
  else if Z.even f then f else (f + 1)%Z.

(** What characterises the rounded value: it is within one half of the
    number, and even when it is exactly one half away. *)
Definition nearest_even (q : Q) (z : Z) : Prop :=
  (q - (1 # 2) <= inject_Z z <= q + (1 # 2))%Q /\
  ((inject_Z z == q - (1 # 2) \/ inject_Z z == q + (1 # 2))%Q -> Z.even z = true).

Definition pow10 (ndigits : nat) : Q := inject_Z (10 ^ Z.of_nat ndigits).

(** [round(x, ndigits)] *)
Definition py_round (x : Q) (ndigits : nat) : Q :=
  (inject_Z (round_half_even (x * pow10 ndigits)) / pow10 ndigits)%Q.

(** A number with at most [ndigits] decimals. *)
Definition is_decimal (ndigits : nat) (x : Q) : Prop :=
  exists k : Z, (x == inject_Z k / pow10 ndigits)%Q.

(** The error band of the MCMC estimate:
    [stats = pm.summary(mytrace, 'g1', round_to=5)] supplies [mean] and
    [mcse_mean]; the cell derives the four printed numbers. *)
Module Band.

Record stats : Type := mk_stats { mean : Q; mcse_mean : Q }.

(** [err = round(float(stats.mcse_mean),5)] *)
Definition err (s : stats) : Q := py_round (mcse_mean s) 5.

(** [plus = round(float(1-stats['mean'] + stats.mcse_mean),5)] *)
Definition plus (s : stats) : Q := py_round (1 - mean s + mcse_mean s) 5.

(** [minus = round(float(1-stats['mean'] - stats.mcse_mean),5)] *)
Definition minus (s : stats) : Q := py_round (1 - mean s - mcse_mean s) 5.

(** [ans = round(float(1-stats['mean']),5)] *)
Definition ans (s : stats) : Q := py_round (1 - mean s) 5.

End Band.

(** Samples equal to the other outcome, 0. *)
Definition count_false (xs : list Q) : nat :=
  length (filter (fun x => Qeq_bool x 0 = true) xs).

(** ** Structure of the network *)

(** The arrows [model_to_graphviz] draws: from every variable mentioned
    in a declaration's parameters to the declared variable. *)
Definition edges (m : Model) : list (string * string) :=
  v ← m; (fun p => (p, rv_name v)) <$> remove_dups (dist_parents (rv_dist v)).

(** The parameters of a distribution at a state of the other variables:
    the probability of a Bernoulli, the mean and standard deviation of a
    Normal. *)
Definition parameters (env : assignment) (d : distribution) : list R :=
  match d with
  | BernoulliDist p => [denote env p]
  | NormalDist mu sd => [denote env mu; denote env sd]
  end.

(** Parameters a distribution accepts: a probability in [0, 1], a
    positive standard deviation. *)
Definition valid_parameters (env : assignment) (d : distribution) : Prop :=
  match d with
  | BernoulliDist p => (0 <= denote env p <= 1)%R
  | NormalDist mu sd => (0 < denote env sd)%R
  end.

(** * Properties *)

(** ** Expressions *)

Lemma Q2R_one : Q2R 1 = 1%R.
Proof. unfold Q2R; simpl; lra. Qed.

Lemma Q2R_zero : Q2R 0 = 0%R.
Proof. unfold Q2R; simpl; lra. Qed.

Lemma Qgt_bool_true (x y : Q) : Qgt_bool x y = true <-> (y < x)%Q.
Proof.
  unfold Qgt_bool. rewrite negb_true_iff, <- not_true_iff_false, Qle_bool_iff.
  split; [apply Qnot_le_lt | apply Qlt_not_le].
Qed.

Lemma Qgt_bool_false (x y : Q) : Qgt_bool x y = false <-> (x <= y)%Q.
Proof. unfold Qgt_bool. rewrite negb_false_iff. apply Qle_bool_iff. Qed.

(** Where the rational evaluator gives a value, it is the value of the
    expression over the reals. *)
Lemma eval_denote (env : assignment) (e : expr) (q : Q) :
  eval env e = Some q -> denote env e = Q2R q.
Proof.
  revert q. induction e as [q0|x|a IHa b IHb|c IHc a IHa b IHb|a _ b _];
    intros q; simpl.
  - now intros [= ->].
  - now intros [= ->].
  - destruct (eval env a) as [u|]; [|discriminate].
    destruct (eval env b) as [v|]; [|discriminate].
    intros [= <-]. rewrite (IHa u eq_refl), (IHb v eq_refl).
    destruct (Qgt_bool u v) eqn:Huv.
    + apply Qgt_bool_true, Qlt_Rlt in Huv.
      destruct (Rlt_dec (Q2R v) (Q2R u)); [now rewrite Q2R_one | contradiction].
    + apply Qgt_bool_false, Qle_Rle in Huv.
      destruct (Rlt_dec (Q2R v) (Q2R u)); [lra | now rewrite Q2R_zero].
  - destruct (eval env c) as [t|]; [|discriminate].
    destruct (eval env a) as [u|]; [|discriminate].
    destruct (eval env b) as [v|]; [|discriminate].
    intros [= <-].
    rewrite (IHc t eq_refl), (IHa u eq_refl), (IHb v eq_refl).
    destruct (Qeq_bool t 0) eqn:Ht.
    + apply Qeq_bool_eq, Qeq_eqR in Ht. rewrite Q2R_zero in Ht.
      destruct (Req_dec_T (Q2R t) 0); [reflexivity | contradiction].
    + destruct (Req_dec_T (Q2R t) 0) as [Hz|]; [|reflexivity].
      rewrite <- Q2R_zero in Hz. apply eqR_Qeq, Qeq_eq_bool in Hz. congruence.
  - discriminate.
Qed.

Lemma healthy_one (env : assignment) (g : string) :
  (env g == 1)%Q -> healthy env g = true.
Proof. intros H. apply Qgt_bool_true. rewrite H. reflexivity. Qed.

Lemma healthy_zero (env : assignment) (g : string) :
  (env g == 0)%Q -> healthy env g = false.
Proof. intros H. apply Qgt_bool_false. rewrite H. discriminate. Qed.

(** [10**.5] is the square root of ten. *)
Lemma ten_pow_half (env : assignment) :
  denote env (Pow (Lit 10) (Lit 0.5)) = sqrt 10.
Proof.
  simpl. replace (Q2R 10) with 10%R by (unfold Q2R; simpl; lra).
  replace (Q2R 0.5) with (/ 2)%R by (unfold Q2R; simpl; lra).
  apply Rpower_sqrt. lra.
Qed.

(** ** The network *)

Lemma bayesnet_names (ev : Evidence) :
  names (bayesnet ev) = ["g1"; "g2"; "g3"; "x1"; "x2"; "x3"].
Proof. reflexivity. Qed.


(** C4: the network is built from literal parameters.  Whatever the
    evidence, the variables are g1, g2, g3, x1, x2, x3; g1 is Bernoulli
    with probability 0.5; g2 and g3 are Bernoulli with probability 0.9
    when g1 is healthy and 0.1 otherwise; each x_i is Normal with mean 50
    when its boolean node is healthy and 60 otherwise, and with standard
    deviation the square root of 10. *)
Theorem bayesnet_literal_parameters (ev : Evidence) :
  names (bayesnet ev) = ["g1"; "g2"; "g3"; "x1"; "x2"; "x3"] /\
  (exists p, dist_of (bayesnet ev) "g1" = Some (BernoulliDist p) /\
     forall env, eval env p = Some 0.5%Q) /\
  (forall child, child ∈ ["g2"; "g3"] ->
     exists p, dist_of (bayesnet ev) child = Some (BernoulliDist p) /\
       forall env, eval env p = Some (if healthy env "g1" then 0.9 else 0.1)%Q) /\
  (forall x g, (x, g) ∈ [("x1", "g1"); ("x2", "g2"); ("x3", "g3")] ->
     exists mu sd, dist_of (bayesnet ev) x = Some (NormalDist mu sd) /\
       forall env,
         eval env mu = Some (if healthy env g then 50 else 60)%Q /\
         denote env sd = sqrt 10).
Proof.
  split; [reflexivity|]. split; [|split].
  - eexists. split; [reflexivity|]. reflexivity.
  - intros child Hc.
    rewrite !elem_of_cons, elem_of_nil in Hc. destruct Hc as [-> | [-> | []]].
    all: eexists; split; [reflexivity|]; intros env; simpl;
      unfold healthy; destruct (Qgt_bool (env "g1") 0.5); reflexivity.
  - intros x g Hxg.
    rewrite !elem_of_cons, elem_of_nil in Hxg.
    destruct Hxg as [[= -> ->] | [[= -> ->] | [[= -> ->] | []]]].
    all: do 2 eexists; split; [reflexivity|]; intros env; split;
      [ simpl; unfold healthy; destruct (Qgt_bool (env _) 0.5); reflexivity
      | apply ten_pow_half ].
Qed.

(** The parameters of the network, read off at one state of the parents. *)
Lemma bayesnet_parameters_example :
  exists p, dist_of (bayesnet exercise1_evidence) "g2" = Some (BernoulliDist p) /\
    eval (fun _ => 1%Q) p = Some 0.9%Q /\ eval (fun _ => 0%Q) p = Some 0.1%Q.
Proof.
  destruct (bayesnet_literal_parameters exercise1_evidence) as (_ & _ & Hg & _).
  destruct (Hg "g2") as (p & Hp & Hev).
  - rewrite !elem_of_cons. tauto.
  - exists p. split; [exact Hp|]. split.
    + rewrite (Hev (fun _ => 1%Q)). reflexivity.
    + rewrite (Hev (fun _ => 0%Q)). reflexivity.
Defined.

(** ** Summary arithmetic *)

Lemma fold_left_Qplus_acc (xs : list Q) (a : Q) :
  (fold_left Qplus xs a == a + fold_left Qplus xs 0)%Q.
Proof.
  revert a. induction xs as [|x xs IH]; intros a; simpl.
  - ring.
  - rewrite (IH (a + x)%Q), (IH (0 + x)%Q). ring.
Qed.

Lemma np_sum_cons (x : Q) (xs : list Q) : (np_sum (x :: xs) == x + np_sum xs)%Q.
Proof. unfold np_sum. simpl. rewrite fold_left_Qplus_acc. ring. Qed.

Lemma inject_Z_of_nat_S (n : nat) :
  (inject_Z (Z.of_nat (S n)) == 1 + inject_Z (Z.of_nat n))%Q.
Proof. rewrite Nat2Z.inj_succ. unfold Z.succ. rewrite inject_Z_plus. ring. Qed.

(** On a column of zeros and ones the sum is the number of ones. *)
Lemma np_sum_bernoulli (xs : list Q) :
  is_bernoulli_column xs = true ->
  (np_sum xs == inject_Z (Z.of_nat (count_true xs)))%Q.
Proof.
  unfold count_true. induction xs as [|x xs IH]; simpl; intros Hb.
  - reflexivity.
  - apply andb_true_iff in Hb as [Hx Hxs].
    rewrite np_sum_cons, (IH Hxs), filter_cons.
    destruct (decide (Qeq_bool x 1 = true)) as [H1 | H1].
    + apply Qeq_bool_eq in H1. cbn [length].
      rewrite inject_Z_of_nat_S, H1. reflexivity.
    + unfold boolean_compatible in Hx. apply orb_true_iff in Hx as [H0 | H1'].
      * apply Qeq_bool_eq in H0. rewrite H0. ring.
      * contradiction.
Qed.

Lemma inject_Z_of_nat_pos (n : nat) : (0 < inject_Z (Z.of_nat (S n)))%Q.
Proof. rewrite <- (Zlt_Qlt 0). lia. Qed.

(** A count out of [n > 0] is a proportion. *)
Lemma proportion_bounds (c n : nat) :
  c <= n -> n <> 0%nat ->
  (0 <= inject_Z (Z.of_nat c) / inject_Z (Z.of_nat n) <= 1)%Q.
Proof.
  intros Hc Hn. destruct n as [|n]; [congruence|].
  pose proof (inject_Z_of_nat_pos n) as Hpos. split.
  - apply Qle_shift_div_l; [exact Hpos|]. rewrite Qmult_0_l.
    rewrite <- (Zle_Qle 0). lia.
  - apply Qle_shift_div_r; [exact Hpos|]. rewrite Qmult_1_l.
    rewrite <- Zle_Qle. lia.
Qed.

Lemma true_divide_Some (a : Q) (n : nat) :
  n <> 0%nat -> true_divide a n = Some (a / inject_Z (Z.of_nat n))%Q.
Proof. destruct n; [congruence | reflexivity]. Qed.

Lemma sample_std_Some (xs : list R) :
  (2 <= length xs)%nat -> exists s, sample_std xs = Some s /\ (0 <= s)%R.
Proof.
  intros H. unfold sample_std. rewrite (decide_True _ _ H).
  eexists. split; [reflexivity | apply sqrt_pos].
Qed.

Lemma sample_std_None (xs : list R) :
  (length xs < 2)%nat -> sample_std xs = None.
Proof. intros H. unfold sample_std. apply decide_False. lia. Qed.

(** With two samples or more the error estimate has a value, and it is
    not negative; no division by zero is involved. *)
Lemma mc_std_error_Some (xs : list Q) :
  (2 <= length xs)%nat -> exists e, mc_std_error xs = Some e /\ (0 <= e)%R.
Proof.
  intros H. unfold mc_std_error.
  destruct (sample_std_Some (Q2R <$> xs)) as (s & -> & Hs);
    [now rewrite length_fmap|].
  eexists. split; [reflexivity|].
  apply Rmult_le_pos; [exact Hs|].
  left. apply Rinv_0_lt_compat, sqrt_lt_R0, lt_0_INR. lia.
Qed.

Lemma mc_std_error_None (xs : list Q) :
  (length xs < 2)%nat -> mc_std_error xs = None.
Proof.
  intros H. unfold mc_std_error.
  rewrite sample_std_None; [reflexivity | now rewrite length_fmap].
Qed.

(** C2, as amended: for every trace and every variable whose column
    holds only zeros and ones: on an empty column nothing is returned; on
    a non-empty one [empirical_probability] returns a mean equal to the
    number of samples equal to 1 divided by the number of samples, and
    this mean lies in [0, 1]; the standard error comes with it when the
    column has at least two samples, and is then non-negative; for a
    single sample it has no value. *)
Theorem empirical_probability_nonempty
    (mytrace : Trace) (var : string) (xs : list Q) :
  mytrace !! var = Some xs ->
  is_bernoulli_column xs = true ->
  (xs = [] -> empirical_probability mytrace var = None) /\
  (xs <> [] ->
   exists mean err,
     empirical_probability mytrace var = Some (mean, err) /\
     (mean == inject_Z (Z.of_nat (count_true xs))
              / inject_Z (Z.of_nat (length xs)))%Q /\
     (0 <= mean <= 1)%Q /\
     (length xs = 1%nat -> err = None) /\
     ((2 <= length xs)%nat -> exists e, err = Some e /\ (0 <= e)%R)).
Proof.
  intros Hcol Hb. split.
  - intros ->. unfold empirical_probability. rewrite Hcol. reflexivity.
  - intros Hne.
    assert (length xs <> 0%nat) as Hlen by (destruct xs; simpl; congruence).
    exists (np_sum xs / inject_Z (Z.of_nat (length xs)))%Q, (mc_std_error xs).
    assert (np_sum xs / inject_Z (Z.of_nat (length xs)) ==
            inject_Z (Z.of_nat (count_true xs)) / inject_Z (Z.of_nat (length xs)))%Q
      as Heq by (rewrite (np_sum_bernoulli xs Hb); reflexivity).
    split; [|split; [exact Heq | split; [|split]]].
    + unfold empirical_probability. rewrite Hcol. simpl.
      rewrite (true_divide_Some _ _ Hlen). reflexivity.
    + rewrite Heq. apply proportion_bounds; [apply length_filter | exact Hlen].
    + intros H1. apply mc_std_error_None. lia.
    + apply mc_std_error_Some.
Qed.

(** C2 as worded fails on the empty column: the quotient is 0/0 and no
    mean is returned. *)
Lemma empirical_probability_empty_column :
  ({[ "g1" := [] ]} : Trace) !! "g1" = Some [] /\
  is_bernoulli_column [] = true /\
  ~ exists mean err,
      empirical_probability {[ "g1" := [] ]} "g1" = Some (mean, err).
Proof.
  split; [reflexivity | split; [reflexivity|]].
  intros (mean & err & H). discriminate H.
Qed.

Lemma empirical_probability_example :
  exists mean err,
    empirical_probability {[ "g1" := [1; 0; 1; 1]%Q ]} "g1" = Some (mean, err) /\
    (mean == inject_Z (Z.of_nat (count_true [1; 0; 1; 1]%Q))
             / inject_Z (Z.of_nat (length [1; 0; 1; 1]%Q)))%Q /\
    (0 <= mean <= 1)%Q /\
    exists e, err = Some e /\ (0 <= e)%R.
Proof.
  assert (({[ "g1" := [1; 0; 1; 1]%Q ]} : Trace) !! "g1" = Some [1; 0; 1; 1]%Q)
    as Hcol by reflexivity.
  destruct (empirical_probability_nonempty _ "g1" _ Hcol eq_refl) as [_ Hne].
  destruct (Hne ltac:(discriminate)) as (mean & err & He & Hm & Hb & _ & Herr).
  exists mean, err. repeat split; try assumption; try apply Hb.
  apply Herr. simpl. lia.
Defined.

(** *** The interval estimate for x2 *)

Lemma sum_bool_acc (bs : list bool) (a : Z) :
  fold_left (fun acc (b : bool) => (acc + Z.b2z b)%Z) bs a
  = (a + sum_bool bs)%Z.
Proof.
  unfold sum_bool. revert a. induction bs as [|b bs IH]; intros a; cbn [fold_left].
  - lia.
  - rewrite (IH (a + Z.b2z b)%Z), (IH (0 + Z.b2z b)%Z). lia.
Qed.

Lemma sum_bool_cons (b : bool) (bs : list bool) :
  sum_bool (b :: bs) = (Z.b2z b + sum_bool bs)%Z.
Proof. unfold sum_bool at 1. cbn [fold_left]. rewrite sum_bool_acc. lia. Qed.

(** Every sample is above 51, below 50, or between the two: exactly one
    of the three. *)
Lemma trichotomy_50_51 (x : Q) :
  (Z.b2z (Qgt_bool x 51) + Z.b2z (Qlt_bool x 50) + Z.b2z (between_50_51 x) = 1)%Z.
Proof.
  unfold Qgt_bool, Qlt_bool, between_50_51.
  destruct (Qle_bool 50 x) eqn:H50, (Qle_bool x 51) eqn:H51; try reflexivity.
  exfalso.
  assert (~ (50 <= x)%Q) as A by (rewrite <- Qle_bool_iff; congruence).
  assert (~ (x <= 51)%Q) as B by (rewrite <- Qle_bool_iff; congruence).
  apply Qnot_le_lt in A, B.
  apply (Qlt_irrefl x). apply (Qlt_trans _ 50); [exact A|].
  apply (Qlt_trans _ 51); [reflexivity | exact B].
Qed.

Lemma interval_count (x2 : list Q) :
  (Z.of_nat (length x2) - sum_bool (n1 x2) - sum_bool (n2 x2))%Z
  = Z.of_nat (length (filter (fun x => between_50_51 x = true) x2)).
Proof.
  induction x2 as [|x xs IH].
  - reflexivity.
  - unfold n1, n2 in *. cbn [map length]. rewrite !sum_bool_cons, filter_cons.
    pose proof (trichotomy_50_51 x) as T.
    destruct (decide (between_50_51 x = true)) as [Hb | Hb].
    + rewrite Hb in T. cbn [length]. cbn [Z.b2z] in T. lia.
    + apply not_true_is_false in Hb. rewrite Hb in T. cbn [Z.b2z] in T. lia.
Qed.

Lemma interval_estimate_is_fraction (mytrace : Trace) :
  interval_estimate mytrace = fraction_between mytrace.
Proof.
  unfold interval_estimate, fraction_between.
  destruct (mytrace !! "x2") as [x2|]; [|reflexivity]. simpl.
  now rewrite interval_count.
Qed.

(** C10, as amended: for every trace the interval estimate is the
    fraction of x2 samples with 50 <= x <= 51 (neither exists for an
    empty column), and when the x2 column is not empty the estimate is a
    number in [0, 1]. *)
Theorem interval_estimate_fraction (mytrace : Trace) :
  interval_estimate mytrace = fraction_between mytrace /\
  forall x2, mytrace !! "x2" = Some x2 -> x2 <> [] ->
    exists q, interval_estimate mytrace = Some q /\ (0 <= q <= 1)%Q.
Proof.
  split; [apply interval_estimate_is_fraction|].
  intros x2 Hcol Hne.
  assert (length x2 <> 0%nat) as Hlen by (destruct x2; simpl; congruence).
  rewrite interval_estimate_is_fraction. unfold fraction_between.
  rewrite Hcol. simpl. rewrite (true_divide_Some _ _ Hlen).
  eexists. split; [reflexivity|].
  apply proportion_bounds; [apply length_filter | exact Hlen].
Qed.

(** C10 as worded fails on the empty column: 0/0 is no number of [0, 1]. *)
Lemma interval_estimate_empty_column :
  ({[ "x2" := [] ]} : Trace) !! "x2" = Some [] /\
  ~ exists q, interval_estimate {[ "x2" := [] ]} = Some q /\ (0 <= q <= 1)%Q.
Proof.
  split; [reflexivity|]. intros (q & H & _). discriminate H.
Qed.

Lemma interval_estimate_example :
  interval_estimate {[ "x2" := [50; 50.5; 51; 52; 49]%Q ]}
  = fraction_between {[ "x2" := [50; 50.5; 51; 52; 49]%Q ]} /\
  exists q, interval_estimate {[ "x2" := [50; 50.5; 51; 52; 49]%Q ]} = Some q /\
            (0 <= q <= 1)%Q.
Proof.
  destruct (interval_estimate_fraction {[ "x2" := [50; 50.5; 51; 52; 49]%Q ]})
    as [Heq Hin].
  split; [exact Heq|].
  apply (Hin [50; 50.5; 51; 52; 49]%Q); [reflexivity | discriminate].
Defined.

(** ** Free and observed variables *)

Lemma free_names_sublist (m : Model) : names (free_RVs m) `sublist_of` names m.
Proof. unfold names, free_RVs. apply fmap_sublist, sublist_filter. Qed.

Lemma NoDup_free_names (m : Model) :
  NoDup (names m) -> NoDup (names (free_RVs m)).
Proof. intros H. eapply sublist_NoDup; [exact H | apply free_names_sublist]. Qed.



(** ** The sampler *)

Section SamplerFacts.
Context {rng : Type}.
Variable init : Model -> rng -> assignment.
Variable kernel : Model -> rng * assignment -> option (rng * assignment).

Lemma run_length (m : Model) (k : nat) :
  forall st fin draws, run kernel m k st = inr (fin, draws) -> length draws = k.
Proof.
  induction k as [|k IH]; intros st fin draws; simpl.
  - now intros [= _ <-].
  - destruct (kernel m st) as [st'|]; [|discriminate].
    destruct (run kernel m k st') as [e|[fin' draws']] eqn:Hrun; [discriminate|].
    intros [= _ <-]. simpl. f_equal. eapply IH. exact Hrun.
Qed.

(** A chain of [a + b] transitions is a chain of [a] followed by one of
    [b] from where the first stopped. *)
Lemma run_add (m : Model) (a b : nat) :
  forall st,
    run kernel m (a + b) st =
    match run kernel m a st with
    | inl e => inl e
    | inr (mid, d1) =>
        match run kernel m b mid with
        | inl e => inl e
        | inr (fin, d2) => inr (fin, d1 ++ d2)
        end
    end.
Proof.
  induction a as [|a IH]; intros st; simpl.
  - destruct (run kernel m b st) as [e|[fin d2]]; reflexivity.
  - destruct (kernel m st) as [st'|]; [|reflexivity].
    rewrite IH. destruct (run kernel m a st') as [e|[mid d1]]; [reflexivity|].
    destruct (run kernel m b mid) as [e|[fin d2]]; reflexivity.
Qed.

Lemma sample_inr (m : Model) (n_draws n_warmup : nat) (seed : rng) (tr : Trace) :
  sample init kernel m n_draws n_warmup seed = inr tr ->
  exists tuned tuning fin draws,
    run kernel m n_warmup (seed, init m seed) = inr (tuned, tuning) /\
    run kernel m n_draws tuned = inr (fin, draws) /\
    tr = trace_of m draws.
Proof.
  unfold sample.
  destruct (run kernel m n_warmup _) as [e|[tuned tuning]]; [discriminate|].
  destruct (run kernel m n_draws tuned) as [e|[fin draws]] eqn:Hdraws;
    [discriminate|].
  intros [= <-]. exists tuned, tuning, fin, draws. now repeat split.
Qed.

(** A chain that never diverges always returns a trace. *)
Lemma run_total (m : Model) :
  (forall st, is_Some (kernel m st)) ->
  forall k st, exists fin draws, run kernel m k st = inr (fin, draws).
Proof.
  intros Hk. induction k as [|k IH]; intros st; simpl.
  - now exists st, [].
  - destruct (Hk st) as [st' ->]. destruct (IH st') as (fin & draws & ->).
    now exists fin, (snd st' :: draws).
Qed.

Lemma sample_total (m : Model) (n_draws n_warmup : nat) (seed : rng) :
  (forall st, is_Some (kernel m st)) ->
  exists tr, sample init kernel m n_draws n_warmup seed = inr tr.
Proof.
  intros Hk. unfold sample.
  destruct (run_total m Hk n_warmup (seed, init m seed)) as (tuned & tuning & ->).
  destruct (run_total m Hk n_draws tuned) as (fin & draws & ->).
  now eexists.
Qed.

End SamplerFacts.

Lemma trace_columns_fst (m : Model) (draws : list assignment) :
  (column_of draws <$> free_RVs m).*1 = names (free_RVs m).
Proof. unfold names. rewrite <- list_fmap_compose. reflexivity. Qed.


(** Columns depend only on the name, so a free name always finds its
    own column, also among equally named variables. *)
Lemma trace_of_free (m : Model) (draws : list assignment) (name : string) :
  name ∈ names (free_RVs m) ->
  trace_of m draws !! name = Some ((fun a : assignment => a name) <$> draws).
Proof.
  intros Hin. unfold names in Hin.
  apply list_elem_of_fmap in Hin as (v & -> & Hv).
  apply elem_of_list_to_map_1'.
  - intros col Hcol. apply list_elem_of_fmap in Hcol as (v' & [= E ->] & _).
    now rewrite E.
  - now apply (list_elem_of_fmap_2 (column_of draws)).
Qed.

Lemma trace_of_None (m : Model) (draws : list assignment) (name : string) :
  name ∉ names (free_RVs m) -> trace_of m draws !! name = None.
Proof.
  intros H. apply not_elem_of_list_to_map_1. now rewrite trace_columns_fst.
Qed.



(** One chain: the kept column of a free variable has [n_draws] entries,
    those that follow the first [n_warmup] of the same chain kept in
    full. *)
Lemma chain_columns {rng : Type}
    (init : Model -> rng -> assignment)
    (kernel : Model -> rng * assignment -> option (rng * assignment))
    (m : Model) (n_draws n_warmup : nat) (seed : rng) (t : Trace) :
  sample init kernel m n_draws n_warmup seed = inr t ->
  exists full,
    sample init kernel m (n_warmup + n_draws) 0 seed = inr full /\
    forall name, name ∈ names (free_RVs m) ->
      exists col fcol,
        t !! name = Some col /\
        full !! name = Some fcol /\
        length col = n_draws /\
        col = drop n_warmup fcol.
Proof.
  intros Hs.
  apply sample_inr in Hs as (tuned & tuning & fin & draws & Hw & Hd & ->).
  exists (trace_of m (tuning ++ draws)). split.
  - unfold sample. cbn [run]. now rewrite run_add, Hw, Hd.
  - intros name Hin.
    pose proof (run_length kernel m _ _ _ _ Hw) as Lw.
    pose proof (run_length kernel m _ _ _ _ Hd) as Ld.
    exists ((fun a : assignment => a name) <$> draws),
           ((fun a : assignment => a name) <$> tuning ++ draws).
    rewrite !(trace_of_free m _ name Hin), length_fmap, fmap_app.
    repeat split; [exact Ld |].
    symmetry. apply drop_app_length'. now rewrite length_fmap.
Qed.

Lemma sample_each_chains {rng : Type}
    (init : Model -> rng -> assignment)
    (kernel : Model -> rng * assignment -> option (rng * assignment))
    (m : Model) (n_draws n_warmup : nat) (seeds : list rng) :
  forall chains,
    sample_each init kernel m n_draws n_warmup seeds = inr chains ->
    Forall2 (fun seed t => sample init kernel m n_draws n_warmup seed = inr t)
            seeds chains.
Proof.
  induction seeds as [|seed rest IH]; intros chains; cbn [sample_each].
  - intros [= <-]. constructor.
  - destruct (sample init kernel m n_draws n_warmup seed) as [e|t] eqn:Hs;
      [discriminate|].
    destruct (sample_each init kernel m n_draws n_warmup rest) as [e|ts];
      [discriminate|].
    intros [= <-]. constructor; [exact Hs | now apply IH].
Qed.

Lemma sample_each_total {rng : Type}
    (init : Model -> rng -> assignment)
    (kernel : Model -> rng * assignment -> option (rng * assignment))
    (m : Model) (n_draws n_warmup : nat) (seeds : list rng) :
  (forall st, is_Some (kernel m st)) ->
  exists chains, sample_each init kernel m n_draws n_warmup seeds = inr chains.
Proof.
  intros Hk. induction seeds as [|seed rest [ts IH]]; cbn [sample_each].
  - now eexists.
  - destruct (sample_total init kernel m n_draws n_warmup seed Hk) as [t ->].
    rewrite IH. now eexists.
Qed.

(** In the merged trace a column is the chains' columns one after the
    other. *)
Lemma merge_chains_lookup (chains : list Trace) (name : string) :
  chains <> [] ->
  (forall t, t ∈ chains -> is_Some (t !! name)) ->
  merge_chains chains !! name
  = Some (concat ((fun t : Trace => default [] (t !! name)) <$> chains)).
Proof.
  induction chains as [|t rest IH]; [congruence|]. intros _ Hall.
  cbn [merge_chains foldr fmap list_fmap concat]. fold (merge_chains rest).
  rewrite lookup_union_with.
  destruct (Hall t) as [col Hcol]; [apply list_elem_of_here|].
  rewrite Hcol. cbn [default]. destruct rest as [|t' rest'].
  - cbn. rewrite lookup_empty. cbn. now rewrite app_nil_r.
  - rewrite IH; [reflexivity | congruence |].
    intros t0 Ht0. apply Hall. now apply list_elem_of_further.
Qed.

Lemma length_concat_uniform {A : Type} (cols : list (list A)) (n : nat) :
  (forall c, c ∈ cols -> length c = n) ->
  length (concat cols) = (length cols * n)%nat.
Proof.
  induction cols as [|c cols IH]; intros H; cbn [concat length].
  - reflexivity.
  - rewrite length_app, (H c), IH; [lia | | apply list_elem_of_here].
    intros c' Hc'. apply H. now apply list_elem_of_further.
Qed.

(** C7, as amended: a call of [sample] runs one chain per seed and
    merges them.  If no chain diverges a trace is returned; and in every
    returned trace the column of a free variable is the chains' columns
    one after the other, so its length is the number of chains times
    [n_draws]; each chain contributes exactly the [n_draws] draws that
    follow its [n_warmup] tuning draws. *)
Theorem merged_trace_length {rng : Type}
    (init : Model -> rng -> assignment)
    (kernel : Model -> rng * assignment -> option (rng * assignment))
    (m : Model) (n_draws n_warmup : nat) (seeds : list rng) :
  ((forall st, is_Some (kernel m st)) ->
   exists tr, sample_chains init kernel m n_draws n_warmup seeds = inr tr) /\
  (forall tr, sample_chains init kernel m n_draws n_warmup seeds = inr tr ->
   exists chains,
     Forall2
       (fun seed t =>
          sample init kernel m n_draws n_warmup seed = inr t /\
          exists full,
            sample init kernel m (n_warmup + n_draws) 0 seed = inr full /\
            forall name, name ∈ names (free_RVs m) ->
              exists col fcol,
                t !! name = Some col /\ full !! name = Some fcol /\
                length col = n_draws /\ col = drop n_warmup fcol)
       seeds chains /\
     (seeds <> [] ->
      forall name, name ∈ names (free_RVs m) ->
        exists col,
          tr !! name = Some col /\
          col = concat ((fun t : Trace => default [] (t !! name)) <$> chains) /\
          length col = (length seeds * n_draws)%nat)).
Proof.
  split.
  - intros Hk. unfold sample_chains.
    destruct (sample_each_total init kernel m n_draws n_warmup seeds Hk)
      as [chains ->].
    now eexists.
  - intros tr Hs. unfold sample_chains in Hs.
    destruct (sample_each init kernel m n_draws n_warmup seeds)
      as [e|chains] eqn:Heach; [discriminate|].
    injection Hs as <-.
    pose proof (sample_each_chains init kernel m n_draws n_warmup seeds chains Heach)
      as Hall.
    exists chains. split.
    + eapply Forall2_impl; [exact Hall|]. intros seed t Hst.
      split; [exact Hst | exact (chain_columns init kernel m _ _ seed t Hst)].
    + intros Hne name Hin.
      assert (forall t, t ∈ chains ->
                exists col, t !! name = Some col /\ length col = n_draws) as Hcols.
      { intros t Ht.
        destruct (proj1 (list_elem_of_lookup chains t) Ht) as [i Hi].
        destruct (Forall2_lookup_r _ _ _ _ _ Hall Hi) as (seed & _ & Hst).
        destruct (chain_columns init kernel m _ _ seed t Hst) as (full & _ & Hc).
        destruct (Hc name Hin) as (col & fcol & Hcol & _ & Hlen & _).
        now exists col. }
      eexists. split; [|split; [reflexivity|]].
      * apply merge_chains_lookup.
        -- intros ->. apply Forall2_nil_inv_r in Hall. congruence.
        -- intros t Ht. destruct (Hcols t Ht) as (col & -> & _). now eexists.
      * rewrite (length_concat_uniform _ n_draws).
        -- now rewrite length_fmap, <- (Forall2_length _ _ _ Hall).
        -- intros c Hc. apply list_elem_of_fmap in Hc as (t & -> & Ht).
           destruct (Hcols t Ht) as (col & -> & Hlen). exact Hlen.
Qed.

(** C7 as worded fails: with two chains, as a plain call runs them, three
    draws give a column of six. *)
Lemma two_chains_double_the_column :
  exists tr col,
    sample_chains parity_init (parity_kernel 100) (bayesnet exercise1_evidence)
      3 2 [0; 1]%nat = inr tr /\
    tr !! "g1" = Some col /\
    length col = 6%nat /\
    length col <> 3%nat.
Proof.
  eexists. eexists. split; [reflexivity|]. split; [reflexivity|].
  split; [reflexivity | discriminate].
Qed.

Lemma merged_trace_example :
  exists tr col,
    sample_chains parity_init (parity_kernel 100) (bayesnet exercise1_evidence)
      3 2 [0; 1]%nat = inr tr /\
    tr !! "g1" = Some col /\
    length col = (length [0; 1]%nat * 3)%nat.
Proof.
  eexists.
  destruct (merged_trace_length parity_init (parity_kernel 100)
              (bayesnet exercise1_evidence) 3 2 [0; 1]%nat) as [_ Hlen].
  destruct (Hlen _ eq_refl) as (chains & _ & Hcols).
  destruct (Hcols ltac:(discriminate) "g1" ltac:(apply list_elem_of_here))
    as (col & Hcol & _ & Hl).
  exists col. split; [reflexivity|]. split; [exact Hcol | exact Hl].
Defined.



(** Both outcomes occur: a chain that diverges during warm-up, and one
    that does not. *)
Example zero_draws_diverging :
  sample parity_init (parity_kernel 1) (bayesnet no_evidence) 0 2 0%nat
  = inl SamplingDivergence.
Proof. reflexivity. Qed.

Example zero_draws_empty_trace :
  exists tr,
    sample parity_init (parity_kernel 100) (bayesnet no_evidence) 0 2 0%nat = inr tr /\
    tr !! "g1" = Some [].
Proof. eexists. split; reflexivity. Qed.

(** ** Evidence *)

Lemma bayesnet_observed (ev : Evidence) (name : string) :
  name ∈ names (bayesnet ev) ->
  observed_of (bayesnet ev) name = Some (evidence_for ev name).
Proof.
  rewrite bayesnet_names, !elem_of_cons, elem_of_nil.
  intros [-> | [-> | [-> | [-> | [-> | [-> | []]]]]]]; reflexivity.
Qed.

Lemma build_returns_bayesnet (ev : Evidence) (g : Model) :
  build ev = inr g -> g = bayesnet ev.
Proof.
  unfold build. destruct (forallb _ _); [now intros [= <-] | discriminate].
Qed.

Lemma build_single_numbers (ev : Evidence) :
  single_numbers_on_boolean_nodes ev = true -> build ev = inr (bayesnet ev).
Proof.
  destruct ev as [[[|]|] [[|]|] [[|]|] o1 o2 o3]; try discriminate; intros _;
    destruct o1, o2, o3; reflexivity.
Qed.

(** C5, as amended: [build] never raises [InvalidEvidence] and does not
    check an observation against the variable's domain.  Whenever it
    returns, it returns the graph of the block, in which each of the six
    variables carries exactly the observation given for it; and it does
    return whenever the evidence on the boolean nodes consists of single
    numbers, whatever their value. *)
Theorem build_stores_evidence_unchecked (ev : Evidence) :
  build ev <> inl InvalidEvidence /\
  (forall g, build ev = inr g ->
     g = bayesnet ev /\
     forall name, name ∈ names g ->
       observed_of g name = Some (evidence_for ev name)) /\
  (single_numbers_on_boolean_nodes ev = true -> build ev = inr (bayesnet ev)).
Proof.
  split; [|split].
  - unfold build. destruct (forallb _ _); discriminate.
  - intros g Hg. apply build_returns_bayesnet in Hg as ->.
    split; [reflexivity | apply bayesnet_observed].
  - apply build_single_numbers.
Qed.

(** C5 as worded fails: evidence fixing the two-outcome root at 7 is
    outside its domain, and the graph is built all the same. *)
Lemma build_accepts_out_of_domain_evidence :
  valid_evidence out_of_domain_evidence = false /\
  build out_of_domain_evidence <> inl InvalidEvidence /\
  build out_of_domain_evidence = inr (bayesnet out_of_domain_evidence) /\
  observed_of (bayesnet out_of_domain_evidence) "g1" = Some (Some (Scalar 7)).
Proof.
  split; [reflexivity|]. split; [discriminate|]. split; reflexivity.
Qed.

Lemma build_example :
  build exercise1_evidence = inr (bayesnet exercise1_evidence) /\
  observed_of (bayesnet exercise1_evidence) "x2" = Some (Some (Scalar 50)) /\
  observed_of (bayesnet exercise1_evidence) "x3" = Some None.
Proof.
  destruct (build_stores_evidence_unchecked exercise1_evidence) as (_ & Hg & Hb).
  specialize (Hb eq_refl). destruct (Hg _ Hb) as [_ Hobs].
  split; [exact Hb|].
  split; apply Hobs; rewrite bayesnet_names, !elem_of_cons; tauto.
Defined.

(** A list observed on the root, with its children free, is refused by
    the library, with its own error; lists on the blood pressures, as
    the last model cell gives them, are not. *)
Example build_list_on_root :
  build list_on_root_evidence = inl TypeError.
Proof. reflexivity. Qed.

Example build_data_model :
  build data_evidence = inr (bayesnet data_evidence).
Proof. reflexivity. Qed.

(** The notebook's four model cells are [bayesnet] at their evidence. *)
Example exercise1_model_observes_x2 :
  observed_RVs (bayesnet exercise1_evidence)
  = [mk_rv "x2"
       (NormalDist (Switch (Gt (RV "g2") (Lit 0.5)) (Lit 50) (Lit 60))
                   (Pow (Lit 10) (Lit 0.5)))
       (Some (Scalar 50))].
Proof. reflexivity. Qed.

Example data_model_free_variables :
  names (free_RVs (bayesnet data_evidence)) = ["g1"; "g2"; "g3"; "x1"].
Proof. reflexivity. Qed.

(** ** Kernel density estimate *)















(** ** More on the summary arithmetic *)

Lemma count_true_false (xs : list Q) :
  is_bernoulli_column xs = true ->
  (count_true xs + count_false xs = length xs)%nat.
Proof.
  unfold count_true, count_false. induction xs as [|x xs IH]; simpl; intros Hb.
  - reflexivity.
  - apply andb_true_iff in Hb as [Hx Hxs]. specialize (IH Hxs).
    rewrite !filter_cons.
    destruct (decide (Qeq_bool x 1 = true)) as [H1 | H1];
      destruct (decide (Qeq_bool x 0 = true)) as [H0 | H0]; cbn [length].
    + apply Qeq_bool_eq in H1, H0. rewrite H1 in H0. discriminate H0.
    + lia.
    + lia.
    + unfold boolean_compatible in Hx. apply orb_true_iff in Hx as [? | ?];
        contradiction.
Qed.

Lemma inject_Z_of_nat_nonzero (n : nat) :
  n <> 0%nat -> ~ (inject_Z (Z.of_nat n) == 0)%Q.
Proof.
  intros Hn E. change 0%Q with (inject_Z 0) in E.
  apply (proj1 (inject_Z_injective _ _)) in E. lia.
Qed.

(** X1: on a non-empty column of zeros and ones, [p_g1_not_healthy] is
    the share of samples equal to 0; it lies in [0, 1] and the two
    probabilities add up to 1. *)
Theorem not_healthy_is_share_of_zeros (mytrace : Trace) (xs : list Q) :
  mytrace !! "g1" = Some xs ->
  xs <> [] ->
  is_bernoulli_column xs = true ->
  exists p q,
    p_g1_healthy mytrace = Some p /\
    p_g1_not_healthy mytrace = Some q /\
    (q == inject_Z (Z.of_nat (count_false xs))
          / inject_Z (Z.of_nat (length xs)))%Q /\
    (p + q == 1)%Q /\
    (0 <= q <= 1)%Q.
Proof.
  intros Hcol Hne Hb.
  assert (length xs <> 0%nat) as Hlen by (destruct xs; simpl; congruence).
  pose proof (inject_Z_of_nat_nonzero _ Hlen) as HN.
  assert (p_g1_healthy mytrace
          = Some (np_sum xs / inject_Z (Z.of_nat (length xs)))%Q) as Hp.
  { unfold p_g1_healthy, p_healthy. rewrite Hcol. simpl.
    apply true_divide_Some, Hlen. }
  exists (np_sum xs / inject_Z (Z.of_nat (length xs)))%Q,
         (1 - np_sum xs / inject_Z (Z.of_nat (length xs)))%Q.
  assert (1 - np_sum xs / inject_Z (Z.of_nat (length xs))
          == inject_Z (Z.of_nat (count_false xs))
             / inject_Z (Z.of_nat (length xs)))%Q as Eq.
  { assert (inject_Z (Z.of_nat (length xs))
            == inject_Z (Z.of_nat (count_true xs))
               + inject_Z (Z.of_nat (count_false xs)))%Q as Hq
        by (rewrite <- (count_true_false xs Hb), Nat2Z.inj_add, inject_Z_plus;
            reflexivity).
    rewrite (np_sum_bernoulli xs Hb). rewrite Hq in HN |- *.
    field. exact HN. }
  split; [exact Hp|]. split; [|split; [exact Eq | split]].
  - unfold p_g1_not_healthy. rewrite Hp. reflexivity.
  - ring.
  - rewrite Eq. apply proportion_bounds; [apply length_filter | exact Hlen].
Qed.

Lemma not_healthy_example :
  exists p q,
    p_g1_healthy {[ "g1" := [1; 0; 1; 1]%Q ]} = Some p /\
    p_g1_not_healthy {[ "g1" := [1; 0; 1; 1]%Q ]} = Some q /\
    (q == inject_Z (Z.of_nat (count_false [1; 0; 1; 1]%Q))
          / inject_Z (Z.of_nat (length [1; 0; 1; 1]%Q)))%Q /\
    (p + q == 1)%Q /\
    (0 <= q <= 1)%Q.
Proof.
  apply (not_healthy_is_share_of_zeros {[ "g1" := [1; 0; 1; 1]%Q ]}
           [1; 0; 1; 1]%Q); [reflexivity | discriminate | reflexivity].
Defined.

Lemma np_sum_Permutation (xs ys : list Q) :
  xs ≡ₚ ys -> (np_sum xs == np_sum ys)%Q.
Proof.
  induction 1 as [|x xs ys _ IH|x y xs|xs ys zs _ IH1 _ IH2].
  - reflexivity.
  - rewrite !np_sum_cons, IH. reflexivity.
  - rewrite !np_sum_cons. ring.
  - now rewrite IH1.
Qed.

Lemma np_sum_app (xs ys : list Q) :
  (np_sum (xs ++ ys) == np_sum xs + np_sum ys)%Q.
Proof.
  induction xs as [|x xs IH]; simpl.
  - unfold np_sum at 2. simpl. ring.
  - rewrite !np_sum_cons, IH. ring.
Qed.

Lemma is_bernoulli_column_Permutation (xs ys : list Q) :
  xs ≡ₚ ys -> is_bernoulli_column xs = true -> is_bernoulli_column ys = true.
Proof.
  unfold is_bernoulli_column. rewrite !forallb_forall.
  intros Hp H y Hy. apply H. apply list_elem_of_In.
  rewrite Hp. now apply list_elem_of_In.
Qed.

Lemma count_true_app (xs ys : list Q) :
  count_true (xs ++ ys) = (count_true xs + count_true ys)%nat.
Proof. unfold count_true. now rewrite filter_app, length_app. Qed.

(** X2: on columns of zeros and ones the estimate does not depend on
    the order of the draws: two columns holding the same samples in
    different orders give the same probability, the number of ones over
    the number of samples, and both give none when empty. *)
Theorem p_healthy_order_irrelevant (trace1 trace2 : Trace) (var : string)
    (xs ys : list Q) :
  trace1 !! var = Some xs ->
  trace2 !! var = Some ys ->
  is_bernoulli_column xs = true ->
  xs ≡ₚ ys ->
  is_bernoulli_column ys = true /\
  count_true xs = count_true ys /\
  option_Forall2 Qeq (p_healthy trace1 var) (p_healthy trace2 var).
Proof.
  intros H1 H2 Hb Hp.
  split; [exact (is_bernoulli_column_Permutation xs ys Hp Hb)|].
  split; [unfold count_true; now rewrite Hp|].
  unfold p_healthy. rewrite H1, H2. simpl.
  rewrite <- (Permutation_length Hp).
  destruct (length xs) as [|n]; simpl; constructor.
  now rewrite (np_sum_Permutation xs ys Hp).
Qed.

Lemma p_healthy_order_example :
  option_Forall2 Qeq (p_healthy {[ "g1" := [1; 0; 1; 1]%Q ]} "g1")
                     (p_healthy {[ "g1" := [0; 1; 1; 1]%Q ]} "g1").
Proof.
  apply (p_healthy_order_irrelevant _ _ "g1" [1; 0; 1; 1]%Q [0; 1; 1; 1]%Q);
    [reflexivity | reflexivity | reflexivity | apply perm_swap].
Defined.

(** X3: pooling two non-empty columns of zeros and ones gives the
    number of ones of both over the number of samples of both, which is
    the average of the two estimates weighted by the columns' lengths. *)
Theorem p_healthy_of_pooled_columns (pooled trace1 trace2 : Trace)
    (var : string) (xs ys : list Q) :
  trace1 !! var = Some xs ->
  trace2 !! var = Some ys ->
  pooled !! var = Some (xs ++ ys) ->
  is_bernoulli_column xs = true ->
  is_bernoulli_column ys = true ->
  xs <> [] -> ys <> [] ->
  exists p p1 p2,
    p_healthy pooled var = Some p /\
    p_healthy trace1 var = Some p1 /\
    p_healthy trace2 var = Some p2 /\
    (p == inject_Z (Z.of_nat (count_true xs + count_true ys))
          / inject_Z (Z.of_nat (length xs + length ys)))%Q /\
    (p == (inject_Z (Z.of_nat (length xs)) * p1
           + inject_Z (Z.of_nat (length ys)) * p2)
          / inject_Z (Z.of_nat (length xs + length ys)))%Q.
Proof.
  intros H1 H2 H Bx By Hx Hy.
  assert (length xs <> 0%nat) as Lx by (destruct xs; simpl; congruence).
  assert (length ys <> 0%nat) as Ly by (destruct ys; simpl; congruence).
  assert (length (xs ++ ys) <> 0%nat) as Lxy by (rewrite length_app; lia).
  pose proof (inject_Z_of_nat_nonzero _ Lx) as Nx.
  pose proof (inject_Z_of_nat_nonzero _ Ly) as Ny.
  assert (is_bernoulli_column (xs ++ ys) = true) as Bxy
      by (unfold is_bernoulli_column in *; rewrite forallb_app, Bx, By; reflexivity).
  unfold p_healthy. rewrite H1, H2, H. simpl.
  rewrite (true_divide_Some _ _ Lx), (true_divide_Some _ _ Ly),
    (true_divide_Some _ _ Lxy).
  do 3 eexists. split; [reflexivity|]. split; [reflexivity|].
  split; [reflexivity|]. split.
  - rewrite (np_sum_bernoulli _ Bxy), count_true_app, length_app. reflexivity.
  - rewrite np_sum_app, length_app.
    assert (~ (inject_Z (Z.of_nat (length xs + length ys)) == 0)%Q) as Nxy
        by (apply inject_Z_of_nat_nonzero; lia).
    field. auto.
Qed.

Lemma p_healthy_pooled_example :
  exists p p1 p2,
    p_healthy {[ "g1" := [1; 0; 1; 1; 0]%Q ]} "g1" = Some p /\
    p_healthy {[ "g1" := [1; 0]%Q ]} "g1" = Some p1 /\
    p_healthy {[ "g1" := [1; 1; 0]%Q ]} "g1" = Some p2 /\
    (p == inject_Z (Z.of_nat (count_true [1; 0]%Q + count_true [1; 1; 0]%Q))
          / inject_Z (Z.of_nat (length [1; 0]%Q + length [1; 1; 0]%Q)))%Q /\
    (p == (inject_Z (Z.of_nat (length [1; 0]%Q)) * p1
           + inject_Z (Z.of_nat (length [1; 1; 0]%Q)) * p2)
          / inject_Z (Z.of_nat (length [1; 0]%Q + length [1; 1; 0]%Q)))%Q.
Proof.
  apply (p_healthy_of_pooled_columns {[ "g1" := [1; 0; 1; 1; 0]%Q ]}
           {[ "g1" := [1; 0]%Q ]} {[ "g1" := [1; 1; 0]%Q ]} "g1");
    [reflexivity | reflexivity | reflexivity | reflexivity | reflexivity
    | discriminate | discriminate].
Defined.

(** X4: the interval estimate for x2 does not depend on the order of
    the draws either. *)
Theorem interval_estimate_order_irrelevant (trace1 trace2 : Trace)
    (xs ys : list Q) :
  trace1 !! "x2" = Some xs ->
  trace2 !! "x2" = Some ys ->
  xs ≡ₚ ys ->
  interval_estimate trace1 = interval_estimate trace2.
Proof.
  intros H1 H2 Hp. rewrite !interval_estimate_is_fraction.
  unfold fraction_between. rewrite H1, H2. simpl. now rewrite Hp.
Qed.

Lemma interval_estimate_order_example :
  interval_estimate {[ "x2" := [50; 52; 51]%Q ]}
  = interval_estimate {[ "x2" := [52; 50; 51]%Q ]}.
Proof.
  apply (interval_estimate_order_irrelevant _ _ [50; 52; 51]%Q [52; 50; 51]%Q);
    [reflexivity | reflexivity | apply perm_swap].
Defined.

(** ** Rounding *)

Lemma round_half_even_cases (q : Q) :
  let n := Qnum q in
  let d := Z.pos (Qden q) in
  let z := round_half_even q in
  (2 * n - d <= 2 * (z * d) <= 2 * n + d)%Z /\
  ((2 * (z * d) = 2 * n - d \/ 2 * (z * d) = 2 * n + d)%Z -> Z.even z = true).
Proof.
  intros n d z. subst z. unfold round_half_even. fold n d.
  pose proof (Z.div_mod n d ltac:(subst d; lia)) as Hdm.
  pose proof (Z.mod_pos_bound n d ltac:(subst d; lia)) as Hr.
  set (f := (n / d)%Z) in *. set (r := (n mod d)%Z) in *.
  assert (2 * n = 2 * (f * d) + 2 * r)%Z as Hn by lia.
  destruct (Z.ltb_spec (2 * r) d) as [Hlt | Hge].
  - split; [lia|]. intros [H | H]; lia.
  - destruct (Z.ltb_spec d (2 * r)) as [Hgt | Hle].
    + split; [lia|]. intros [H | H]; lia.
    + destruct (Z.even f) eqn:Hev.
      * split; [lia|]. intros _. exact Hev.
      * split; [lia|]. intros _.
        rewrite Z.add_1_r, Z.even_succ, <- Z.negb_even, Hev. reflexivity.
Qed.

Lemma round_half_even_nearest (q : Q) : nearest_even q (round_half_even q).
Proof.
  pose proof (round_half_even_cases q) as [Hb Ht].
  destruct q as [n d]. cbn [Qnum Qden] in Hb, Ht.
  set (z := round_half_even (n # d)) in *.
  unfold nearest_even, Qle, Qeq, Qminus, Qplus, Qopp, inject_Z.
  cbn [Qnum Qden]. rewrite !Pos2Z.inj_mul.
  split; [lia|]. intros [H | H]; apply Ht; lia.
Qed.

(** At most one integer is nearest in this sense. *)
Lemma nearest_even_unique (q : Q) (z1 z2 : Z) :
  nearest_even q z1 -> nearest_even q z2 -> z1 = z2.
Proof.
  intros [[L1 U1] T1] [[L2 U2] T2].
  assert (inject_Z z1 <= inject_Z z2 + 1)%Q as A by Lqa.lra.
  assert (inject_Z z2 <= inject_Z z1 + 1)%Q as B by Lqa.lra.
  change 1%Q with (inject_Z 1) in A, B.
  rewrite <- inject_Z_plus, <- Zle_Qle in A, B.
  destruct (Z.eq_dec z1 z2) as [E | N]; [exact E | exfalso].
  assert (z1 = z2 + 1 \/ z2 = z1 + 1)%Z as [E | E] by lia; subst.
  - rewrite inject_Z_plus in L1, U1, T1. change (inject_Z 1) with 1%Q in *.
    assert (Z.even z2 = true) as E2 by (apply T2; left; Lqa.lra).
    assert (Z.even (z2 + 1) = true) as E1 by (apply T1; right; Lqa.lra).
    rewrite Z.add_1_r, Z.even_succ, <- Z.negb_even, E2 in E1. discriminate.
  - rewrite inject_Z_plus in L2, U2, T2. change (inject_Z 1) with 1%Q in *.
    assert (Z.even z1 = true) as E1 by (apply T1; left; Lqa.lra).
    assert (Z.even (z1 + 1) = true) as E2 by (apply T2; right; Lqa.lra).
    rewrite Z.add_1_r, Z.even_succ, <- Z.negb_even, E1 in E2. discriminate.
Qed.

Lemma nearest_even_Qeq (q1 q2 : Q) (z : Z) :
  (q1 == q2)%Q -> nearest_even q1 z -> nearest_even q2 z.
Proof.
  intros E [[L U] T]. split; [split; Lqa.lra|].
  intros [H | H]; apply T; [left | right]; Lqa.lra.
Qed.

(** Rounding does not see how a number is written as a fraction. *)
Lemma round_half_even_Qeq (q1 q2 : Q) :
  (q1 == q2)%Q -> round_half_even q1 = round_half_even q2.
Proof.
  intros E. apply (nearest_even_unique q2).
  - apply (nearest_even_Qeq q1 q2 _ E), round_half_even_nearest.
  - apply round_half_even_nearest.
Qed.

Lemma round_half_even_mono (q1 q2 : Q) :
  (q1 <= q2)%Q -> (round_half_even q1 <= round_half_even q2)%Z.
Proof.
  intros Hle.
  destruct (round_half_even_nearest q1) as [[L1 U1] T1].
  destruct (round_half_even_nearest q2) as [[L2 U2] T2].
  set (z1 := round_half_even q1) in *. set (z2 := round_half_even q2) in *.
  assert (inject_Z z1 <= inject_Z z2 + 1)%Q as A by Lqa.lra.
  change 1%Q with (inject_Z 1) in A.
  rewrite <- inject_Z_plus, <- Zle_Qle in A.
  destruct (Z.le_gt_cases z1 z2) as [Hok | Hgt]; [exact Hok | exfalso].
  assert (z1 = z2 + 1)%Z as E by lia.
  assert (inject_Z z1 == inject_Z z2 + 1)%Q as EQ
      by (rewrite E, inject_Z_plus; reflexivity).
  assert (Z.even z1 = true) as E1 by (apply T1; right; Lqa.lra).
  assert (Z.even z2 = true) as E2 by (apply T2; left; Lqa.lra).
  rewrite E, Z.add_1_r, Z.even_succ, <- Z.negb_even, E2 in E1. discriminate.
Qed.

Lemma round_half_even_integer (k : Z) : round_half_even (inject_Z k) = k.
Proof.
  symmetry. apply (nearest_even_unique (inject_Z k)).
  - split; [split; Lqa.lra|]. intros [H | H]; exfalso; Lqa.lra.
  - apply round_half_even_nearest.
Qed.

Lemma pow10_pos (ndigits : nat) : (0 < pow10 ndigits)%Q.
Proof.
  unfold pow10. rewrite <- (Zlt_Qlt 0). apply Z.pow_pos_nonneg; lia.
Qed.

Lemma pow10_nonzero (ndigits : nat) : ~ (pow10 ndigits == 0)%Q.
Proof. pose proof (pow10_pos ndigits). Lqa.lra. Qed.

Lemma Qdiv_le_compat (a b c : Q) : (0 < c -> a <= b -> a / c <= b / c)%Q.
Proof.
  intros Hc Hab. unfold Qdiv. apply Qmult_le_compat_r; [exact Hab|].
  apply Qlt_le_weak, Qinv_lt_0_compat, Hc.
Qed.

Lemma py_round_mono (x y : Q) (ndigits : nat) :
  (x <= y)%Q -> (py_round x ndigits <= py_round y ndigits)%Q.
Proof.
  intros Hxy. unfold py_round. apply Qdiv_le_compat; [apply pow10_pos|].
  rewrite <- Zle_Qle. apply round_half_even_mono.
  apply Qmult_le_compat_r; [exact Hxy | apply Qlt_le_weak, pow10_pos].
Qed.

Lemma py_round_Qeq (x y : Q) (ndigits : nat) :
  (x == y)%Q -> (py_round x ndigits == py_round y ndigits)%Q.
Proof.
  intros E. unfold py_round.
  rewrite (round_half_even_Qeq (x * pow10 ndigits) (y * pow10 ndigits)).
  - reflexivity.
  - now rewrite E.
Qed.

(** X5: rounding to [ndigits] decimals moves a number by at most half a
    unit of the last kept decimal. *)
Theorem py_round_within_half_unit (x : Q) (ndigits : nat) :
  (x - (1 # 2) / pow10 ndigits <= py_round x ndigits
   <= x + (1 # 2) / pow10 ndigits)%Q.
Proof.
  pose proof (pow10_pos ndigits) as HP. pose proof (pow10_nonzero ndigits) as HN.
  destruct (round_half_even_nearest (x * pow10 ndigits)) as [[L U] _].
  unfold py_round. split.
  - apply Qle_shift_div_l; [exact HP|].
    assert ((x - (1 # 2) / pow10 ndigits) * pow10 ndigits
            == x * pow10 ndigits - (1 # 2))%Q as E by (field; exact HN).
    rewrite E. exact L.
  - apply Qle_shift_div_r; [exact HP|].
    assert ((x + (1 # 2) / pow10 ndigits) * pow10 ndigits
            == x * pow10 ndigits + (1 # 2))%Q as E by (field; exact HN).
    rewrite E. exact U.
Qed.

(** A number that already has at most [ndigits] decimals is left alone. *)
Lemma py_round_decimal (x : Q) (ndigits : nat) :
  is_decimal ndigits x -> (py_round x ndigits == x)%Q.
Proof.
  intros [k Hk]. pose proof (pow10_nonzero ndigits) as HN.
  unfold py_round.
  rewrite (round_half_even_Qeq (x * pow10 ndigits) (inject_Z k)).
  - rewrite round_half_even_integer. symmetry. exact Hk.
  - rewrite Hk. field. exact HN.
Qed.

Lemma py_round_is_decimal (x : Q) (ndigits : nat) :
  is_decimal ndigits (py_round x ndigits).
Proof. eexists. unfold py_round. reflexivity. Qed.

(** Rounding twice is rounding once. *)
Lemma py_round_idempotent (x : Q) (ndigits : nat) :
  (py_round (py_round x ndigits) ndigits == py_round x ndigits)%Q.
Proof. apply py_round_decimal, py_round_is_decimal. Qed.

Lemma is_decimal_one (ndigits : nat) : is_decimal ndigits 1.
Proof.
  exists (10 ^ Z.of_nat ndigits)%Z. fold (pow10 ndigits).
  field. apply pow10_nonzero.
Qed.

Lemma is_decimal_plus (ndigits : nat) (x y : Q) :
  is_decimal ndigits x -> is_decimal ndigits y -> is_decimal ndigits (x + y).
Proof.
  intros [a Ha] [b Hb]. exists (a + b)%Z.
  rewrite Ha, Hb, inject_Z_plus. field. apply pow10_nonzero.
Qed.

Lemma is_decimal_minus (ndigits : nat) (x y : Q) :
  is_decimal ndigits x -> is_decimal ndigits y -> is_decimal ndigits (x - y).
Proof.
  intros [a Ha] [b Hb]. exists (a - b)%Z.
  rewrite Ha, Hb. unfold Z.sub. rewrite inject_Z_plus, inject_Z_opp.
  field. apply pow10_nonzero.
Qed.

(** ** The error band *)

(** X6: with a non-negative standard error the printed numbers are in
    order, [minus <= ans <= plus]. *)
Theorem band_in_order (s : Band.stats) :
  (0 <= Band.mcse_mean s)%Q ->
  (Band.minus s <= Band.ans s <= Band.plus s)%Q.
Proof.
  intros H. unfold Band.minus, Band.ans, Band.plus.
  split; apply py_round_mono; Lqa.lra.
Qed.

Lemma band_in_order_example :
  (Band.minus (Band.mk_stats 0.89465 0.00412)
   <= Band.ans (Band.mk_stats 0.89465 0.00412)
   <= Band.plus (Band.mk_stats 0.89465 0.00412))%Q.
Proof. apply band_in_order. discriminate. Defined.

(** X7: when [mean] and [mcse_mean] come with at most five decimals,
    as [round_to=5] delivers them, rounding changes nothing: [ans] is
    [1 - mean], [err] is [mcse_mean], and the band is [ans - err] to
    [ans + err]. *)
Theorem band_exact_on_rounded_stats (s : Band.stats) :
  is_decimal 5 (Band.mean s) ->
  is_decimal 5 (Band.mcse_mean s) ->
  (Band.ans s == 1 - Band.mean s)%Q /\
  (Band.err s == Band.mcse_mean s)%Q /\
  (Band.plus s == Band.ans s + Band.err s)%Q /\
  (Band.minus s == Band.ans s - Band.err s)%Q.
Proof.
  intros Hm He.
  assert (is_decimal 5 (1 - Band.mean s)) as Hc
      by (apply is_decimal_minus; [apply is_decimal_one | exact Hm]).
  assert (Band.ans s == 1 - Band.mean s)%Q as Ea
      by (apply py_round_decimal, Hc).
  assert (Band.err s == Band.mcse_mean s)%Q as Ee
      by (apply py_round_decimal, He).
  split; [exact Ea|]. split; [exact Ee|]. split.
  - rewrite Ea, Ee. apply py_round_decimal, is_decimal_plus; assumption.
  - rewrite Ea, Ee. apply py_round_decimal, is_decimal_minus; assumption.
Qed.

Lemma band_exact_example :
  (Band.ans (Band.mk_stats 0.89465 0.00412) == 1 - 0.89465)%Q /\
  (Band.err (Band.mk_stats 0.89465 0.00412) == 0.00412)%Q /\
  (Band.plus (Band.mk_stats 0.89465 0.00412)
   == Band.ans (Band.mk_stats 0.89465 0.00412)
      + Band.err (Band.mk_stats 0.89465 0.00412))%Q /\
  (Band.minus (Band.mk_stats 0.89465 0.00412)
   == Band.ans (Band.mk_stats 0.89465 0.00412)
      - Band.err (Band.mk_stats 0.89465 0.00412))%Q.
Proof.
  apply band_exact_on_rounded_stats.
  - exists 89465%Z. reflexivity.
  - exists 412%Z. reflexivity.
Defined.

(** ** Structure of the network *)

(** The value of an expression is decided by the variables it
    mentions. *)
Lemma denote_parents (env1 env2 : assignment) (e : expr) :
  (forall x, x ∈ parents e -> env1 x = env2 x) ->
  denote env1 e = denote env2 e.
Proof.
  induction e as [q|x|a IHa b IHb|c IHc a IHa b IHb|a IHa b IHb];
    cbn [parents denote]; intros H.
  - reflexivity.
  - rewrite (H x); [reflexivity | apply list_elem_of_here].
  - rewrite IHa, IHb; [reflexivity | |]; intros x Hx; apply H;
      rewrite elem_of_app; tauto.
  - rewrite IHc, IHa, IHb; [reflexivity | | |]; intros x Hx; apply H;
      rewrite !elem_of_app; tauto.
  - rewrite IHa, IHb; [reflexivity | |]; intros x Hx; apply H;
      rewrite elem_of_app; tauto.
Qed.

Lemma parameters_parents (env1 env2 : assignment) (d : distribution) :
  (forall x, x ∈ dist_parents d -> env1 x = env2 x) ->
  parameters env1 d = parameters env2 d.
Proof.
  destruct d as [p | mu sd]; cbn [dist_parents parameters]; intros H.
  - rewrite (denote_parents env1 env2 p H). reflexivity.
  - rewrite (denote_parents env1 env2 mu), (denote_parents env1 env2 sd);
      [reflexivity | |]; intros x Hx; apply H; rewrite elem_of_app; tauto.
Qed.

Lemma elem_of_edges (m : Model) (p child : string) :
  (p, child) ∈ edges m <->
  exists v, v ∈ m /\ rv_name v = child /\ p ∈ dist_parents (rv_dist v).
Proof.
  unfold edges. rewrite list_elem_of_bind. split.
  - intros (v & Hin & Hv). apply list_elem_of_fmap in Hin as (p' & [= -> ->] & Hp).
    exists v. split; [exact Hv|]. split; [reflexivity|].
    rewrite elem_of_remove_dups in Hp. exact Hp.
  - intros (v & Hv & <- & Hp). exists v. split; [|exact Hv].
    apply list_elem_of_fmap. exists p. split; [reflexivity|].
    rewrite elem_of_remove_dups. exact Hp.
Qed.

Lemma bayesnet_unfold (ev : Evidence) :
  bayesnet ev =
  [ mk_rv "g1" (BernoulliDist (Lit 0.5)) (obs_g1 ev);
    mk_rv "g2" (BernoulliDist (Switch (Gt (RV "g1") (Lit 0.5)) (Lit 0.9) (Lit 0.1)))
      (obs_g2 ev);
    mk_rv "g3" (BernoulliDist (Switch (Gt (RV "g1") (Lit 0.5)) (Lit 0.9) (Lit 0.1)))
      (obs_g3 ev);
    mk_rv "x1" (NormalDist (Switch (Gt (RV "g1") (Lit 0.5)) (Lit 50) (Lit 60))
                           (Pow (Lit 10) (Lit 0.5))) (obs_x1 ev);
    mk_rv "x2" (NormalDist (Switch (Gt (RV "g2") (Lit 0.5)) (Lit 50) (Lit 60))
                           (Pow (Lit 10) (Lit 0.5))) (obs_x2 ev);
    mk_rv "x3" (NormalDist (Switch (Gt (RV "g3") (Lit 0.5)) (Lit 50) (Lit 60))
                           (Pow (Lit 10) (Lit 0.5))) (obs_x3 ev) ].
Proof. reflexivity. Qed.

(** X9: for every evidence the arrows of the network are g1 -> g2,
    g1 -> g3, g1 -> x1, g2 -> x2 and g3 -> x3; every arrow starts at a
    variable declared before the one it points to; and the parameters of
    a variable are the same at any two states of the network that agree
    on the variables with an arrow into it. *)
Theorem network_arrows (ev : Evidence) :
  edges (bayesnet ev)
  = [("g1", "g2"); ("g1", "g3"); ("g1", "x1"); ("g2", "x2"); ("g3", "x3")] /\
  (forall i v p,
      bayesnet ev !! i = Some v ->
      (p, rv_name v) ∈ edges (bayesnet ev) ->
      p ∈ names (take i (bayesnet ev))) /\
  (forall v env1 env2,
      v ∈ bayesnet ev ->
      (forall p, (p, rv_name v) ∈ edges (bayesnet ev) -> env1 p = env2 p) ->
      parameters env1 (rv_dist v) = parameters env2 (rv_dist v)).
Proof.
  split; [reflexivity|]. split.
  - intros i v p Hi Hp.
    assert (edges (bayesnet ev)
            = [("g1", "g2"); ("g1", "g3"); ("g1", "x1"); ("g2", "x2"); ("g3", "x3")])
      as E by reflexivity.
    rewrite E in Hp. clear E. rewrite bayesnet_unfold in Hi |- *.
    do 6 (destruct i as [|i]; [injection Hi as <-; cbn in Hp |- *;
      rewrite !elem_of_cons, elem_of_nil in Hp;
      rewrite ?elem_of_cons; intuition congruence |]).
    discriminate Hi.
  - intros v env1 env2 Hv Hagree. apply parameters_parents.
    intros x Hx. apply Hagree, elem_of_edges. now exists v.
Qed.

Lemma network_arrows_example :
  parameters (fun x => if decide (x = "g2") then 1%Q else 0%Q)
    (NormalDist (Switch (Gt (RV "g2") (Lit 0.5)) (Lit 50) (Lit 60))
                (Pow (Lit 10) (Lit 0.5)))
  = parameters (fun x => if decide (x = "g2") then 1%Q else 7%Q)
      (NormalDist (Switch (Gt (RV "g2") (Lit 0.5)) (Lit 50) (Lit 60))
                  (Pow (Lit 10) (Lit 0.5))).
Proof.
  destruct (network_arrows exercise1_evidence) as (E & _ & Hdep).
  apply (Hdep (mk_rv "x2"
                 (NormalDist (Switch (Gt (RV "g2") (Lit 0.5)) (Lit 50) (Lit 60))
                             (Pow (Lit 10) (Lit 0.5)))
                 (Some (Scalar 50)))).
  - rewrite bayesnet_unfold, !elem_of_cons. tauto.
  - intros p Hp. rewrite E, !elem_of_cons, elem_of_nil in Hp. cbn in Hp.
    assert (p = "g2") as -> by intuition congruence. reflexivity.
Defined.

(** X11: at every state of the network, also one where the boolean
    nodes hold other numbers than 0 and 1, every Bernoulli variable gets a
    probability in [0, 1] and every Normal variable a positive standard
    deviation. *)
Theorem bayesnet_parameters_valid (ev : Evidence) (env : assignment) (v : rv) :
  v ∈ bayesnet ev -> valid_parameters env (rv_dist v).
Proof.
  rewrite bayesnet_unfold, !elem_of_cons, elem_of_nil.
  assert (0 < sqrt 10)%R as Hsd by (apply sqrt_lt_R0; lra).
  intros [-> | [-> | [-> | [-> | [-> | [-> | []]]]]]];
    cbn [rv_dist valid_parameters].
  - cbn [denote]. unfold Q2R; simpl; lra.
  - cbn [denote]. destruct (Req_dec_T _ _); unfold Q2R; simpl; lra.
  - cbn [denote]. destruct (Req_dec_T _ _); unfold Q2R; simpl; lra.
  - now rewrite ten_pow_half.
  - now rewrite ten_pow_half.
  - now rewrite ten_pow_half.
Qed.

Lemma bayesnet_parameters_valid_example :
  valid_parameters (fun _ => 7%Q)
    (BernoulliDist (Switch (Gt (RV "g1") (Lit 0.5)) (Lit 0.9) (Lit 0.1))).
Proof.
  apply (bayesnet_parameters_valid exercise1_evidence (fun _ => 7%Q)
           (mk_rv "g2"
              (BernoulliDist (Switch (Gt (RV "g1") (Lit 0.5)) (Lit 0.9) (Lit 0.1)))
              None)).
  rewrite bayesnet_unfold, !elem_of_cons. tauto.
Defined.
